(** * observable_clock: a square-wave clock with an intrusive observer list

    Shallow embedding of [src/observable_clock.hpp].

    - [size_t] values are integers in [Z]; the one place the source can
      leave the range ([clk->time += delta_time]) wraps modulo
      [2 ^ size_bits], the width being a parameter of the development.
    - Pointers to [ObserverNode] are addresses in [N], [0] being [NULL];
      the nodes live in a store [gmap N ObserverNode], so that the intrusive
      [next] links and their aliasing are the ones of the source.
    - Function pointers and [void *] data are opaque addresses as well.
    - The two loops ([while] in [clock_remove_observer], [for] in
      [clock_notify_listeners]) follow [next] links of the store and run on
      fuel; dereferencing an address the store does not hold is a fault.
    - A callback is foreign code: calling it is recorded as an event. *)

From stdpp Require Import base option list gmap.
From Stdlib Require Import ZArith Lia.

Open Scope Z_scope.

(** ** Data model *)

Definition NULL : N := 0%N.

(** [struct ObserverNode]. *)
Record ObserverNode := mkNode {
  callback : N;   (* callback_t, NULL when unset *)
  data     : N;   (* void *, NULL when unset *)
  next     : N    (* ObserverNode * *)
}.

(** [Clock]. *)
Record Clock := mkClock {
  signal    : bool;
  period    : Z;
  time      : Z;
  observers : N   (* head of the observer list *)
}.

Abbreviation heap := (gmap N ObserverNode).

Definition set_next (nd : ObserverNode) (p : N) : ObserverNode :=
  {| callback := callback nd; data := data nd; next := p |}.

Definition set_observers (clk : Clock) (p : N) : Clock :=
  {| signal := signal clk; period := period clk; time := time clk;
     observers := p |}.

(** What a call can end in: a normal return, a dereference of an address
    that holds no node, or a loop that used up its fuel. *)
Inductive outcome (A : Type) : Type :=
  | Done (a : A)
  | Fault
  | Timeout.
Arguments Done {A} a.
Arguments Fault {A}.
Arguments Timeout {A}.

Global Instance outcome_ret : MRet outcome := fun A a => Done a.
Global Instance outcome_bind : MBind outcome := fun A B k m =>
  match m with
  | Done a => k a
  | Fault => Fault
  | Timeout => Timeout
  end.

(** Events of a run. [EvCall obs cb d]: the callback [cb] of the node at
    [obs] was called with [d]. [EvNotify] is a ghost event that marks one
    entry into [clock_notify_listeners], so that notification passes can be
    counted also when no callback runs. *)
Inductive event :=
  | EvNotify
  | EvCall (obs cb d : N).

Global Instance event_eq_dec : EqDecision event.
Proof. solve_decision. Defined.

(** ** Operations *)

(** [clock_init] overwrites all four fields. *)
Definition clock_init (period : Z) : Clock :=
  {| signal := true; period := period; time := 0; observers := NULL |}.

(** [clock_add_observer]. The functions take the clock by value and return
    it, so the guard [!clk] of the source has no counterpart. *)
Definition clock_add_observer (clk : Clock) (h : heap) (observer : N)
  : outcome (Clock * heap) :=
  if (observer =? NULL)%N then Done (clk, h)
  else match h !! observer with
       | None => Fault
       | Some nd =>
           let h' := <[observer := set_next nd (observers clk)]> h in
           Done (set_observers clk observer, h')
       end.

(** [ObserverNode **current]: the pointer cell the removal loop looks at,
    either [&clk->observers] or [&node->next]. *)
Inductive cell :=
  | HeadCell
  | NextCell (a : N).

Definition load (clk : Clock) (h : heap) (c : cell) : outcome N :=
  match c with
  | HeadCell => Done (observers clk)
  | NextCell a => match h !! a with
                  | Some nd => Done (next nd)
                  | None => Fault
                  end
  end.

Definition store (clk : Clock) (h : heap) (c : cell) (p : N)
  : outcome (Clock * heap) :=
  match c with
  | HeadCell => Done (set_observers clk p, h)
  | NextCell a => match h !! a with
                  | Some nd => Done (clk, <[a := set_next nd p]> h)
                  | None => Fault
                  end
  end.

(** The [while] loop of [clock_remove_observer]; [load] reads the cell
    [current] points to. *)
Fixpoint remove_loop (fuel : nat) (clk : Clock) (h : heap) (current : cell)
    (observer : N) : outcome (Clock * heap) :=
  match fuel with
  | O => Timeout
  | S fuel' =>
      p ← load clk h current ;
      if (p =? NULL)%N then Done (clk, h)
      else if (p =? observer)%N then
        match h !! observer with
        | None => Fault
        | Some nd => store clk h current (next nd)
        end
      else remove_loop fuel' clk h (NextCell p) observer
  end.

Definition clock_remove_observer (fuel : nat) (clk : Clock) (h : heap)
    (observer : N) : outcome (Clock * heap) :=
  if (observer =? NULL)%N then Done (clk, h)
  else remove_loop fuel clk h HeadCell observer.

(** The [for] loop of [clock_notify_listeners]. *)
Fixpoint notify_loop (fuel : nat) (h : heap) (obs : N) : outcome (list event) :=
  match fuel with
  | O => Timeout
  | S fuel' =>
      if (obs =? NULL)%N then Done []
      else match h !! obs with
           | None => Fault
           | Some nd =>
               let ev :=
                 if negb (callback nd =? NULL)%N && negb (data nd =? NULL)%N
                 then [EvCall obs (callback nd) (data nd)] else [] in
               rest ← notify_loop fuel' h (next nd) ;
               Done (ev ++ rest)
           end
  end.

Definition clock_notify_listeners (fuel : nat) (clk : Clock) (h : heap)
  : outcome (list event) :=
  rest ← notify_loop fuel h (observers clk) ;
  Done (EvNotify :: rest).

Section Width.

(** Width of [size_t] in bits. *)
Variable size_bits : N.

Definition SIZE_MOD : Z := 2 ^ Z.of_N size_bits.

(** [clock_tick]. *)
Definition clock_tick (fuel : nat) (clk : Clock) (h : heap) (delta_time : Z)
  : outcome (Clock * list event) :=
  if period clk =? 0 then Done (clk, [])
  else
    let t := (time clk + delta_time) mod SIZE_MOD in
    let s := (t mod period clk) <? (period clk / 2) in
    if t >=? period clk then
      let clk' := {| signal := s; period := period clk; time := 0;
                     observers := observers clk |} in
      evs ← clock_notify_listeners fuel clk' h ;
      Done (clk', evs)
    else
      Done ({| signal := s; period := period clk; time := t;
               observers := observers clk |}, []).

(** The accumulated phase [clk->time += delta_time] holds before the
    comparison with the period. *)
Definition accumulated (clk : Clock) (delta_time : Z) : Z :=
  (time clk + delta_time) mod SIZE_MOD.

Definition level (clk : Clock) (delta_time : Z) : bool :=
  (accumulated clk delta_time mod period clk) <? (period clk / 2).

(** A driver: one [clock_tick] per delta, as the loop of the header's
    example does; it returns the clock and the events after each call. *)
Fixpoint clock_ticks (fuel : nat) (clk : Clock) (h : heap) (deltas : list Z)
  : outcome (list (Clock * list event)) :=
  match deltas with
  | [] => Done []
  | d :: ds =>
      '(clk', evs) ← clock_tick fuel clk h d ;
      rest ← clock_ticks fuel clk' h ds ;
      Done ((clk', evs) :: rest)
  end.

End Width.

(** ** Well-formed registries *)

(** [chainb h p l]: following [next] from [p] in [h] visits exactly the
    nodes at the addresses [l], in this order, and then reaches [NULL]. *)
Fixpoint chainb (h : heap) (p : N) (l : list N) : bool :=
  match l with
  | [] => (p =? NULL)%N
  | a :: l' =>
      (p =? a)%N && negb (a =? NULL)%N &&
      match h !! a with
      | Some nd => chainb h (next nd) l'
      | None => false
      end
  end.

Definition chain (h : heap) (p : N) (l : list N) : Prop := chainb h p l = true.

(** The callback invocation one node contributes to a notification pass. *)
Definition call_of (h : heap) (a : N) : list event :=
  match h !! a with
  | Some nd =>
      if negb (callback nd =? NULL)%N && negb (data nd =? NULL)%N
      then [EvCall a (callback nd) (data nd)] else []
  | None => []
  end.

Definition calls (h : heap) (l : list N) : list event :=
  concat (map (call_of h) l).

(** Number of notification passes in a trace. *)
Definition notifications (evs : list event) : nat :=
  length (filter (λ e, e = EvNotify) evs).

(** The cell the loop stops at when the handle is on the chain: the one it
    started from, or the [next] field of the node just before the handle. *)
Definition cell_before (cur : cell) (l1 : list N) : cell :=
  match last l1 with
  | None => cur
  | Some b => NextCell b
  end.

(** Sum of the deltas of a run. *)
Definition sum_deltas (ds : list Z) : Z := foldr Z.add 0 ds.

(** The clock a run leaves: the one of its last tick, or the one it
    started from when the run is empty. *)
Definition last_clock (clk : Clock) (rs : list (Clock * list event)) : Clock :=
  match last rs with
  | Some r => r.1
  | None => clk
  end.

(** All events of a run, in order. *)
Definition run_events (rs : list (Clock * list event)) : list event :=
  concat (map snd rs).

(** A store of two observer nodes for examples: node 1 is the only node
    of a registry, node 2 is not linked in. *)
Definition two_nodes : heap :=
  <[1%N := mkNode 10 20 0]> (<[2%N := mkNode 11 21 9]> ∅).

(** ** [xrandom.h]: a linear congruential generator

    The static [xrandom_state] is threaded explicitly: [uint64_t] values
    are integers in [Z], multiplication and addition wrap modulo [2 ^ 64].
    The conversion [(int)] of an [int] of [int_bits] bits is the
    two's-complement one. *)

Definition XRAND_MAX : Z := 0x7fffffff.

Definition UINT64_MOD : Z := 2 ^ 64.

Definition XRANDOM_MUL : Z := 0x3243f6a8885a308d.

(** Initial value of [xrandom_state]. *)
Definition xrandom_state : Z := 1234.

(** [xrandom_seed]: the old state is dropped. *)
Definition xrandom_seed (seed : Z) (st : Z) : Z := seed.

Definition to_int (int_bits : N) (z : Z) : Z :=
  (z + 2 ^ (Z.of_N int_bits - 1)) mod 2 ^ Z.of_N int_bits
  - 2 ^ (Z.of_N int_bits - 1).

(** [xrandom]: the new state and the value returned. *)
Definition xrandom (int_bits : N) (st : Z) : Z * Z :=
  let st' := (st * XRANDOM_MUL + 1) mod UINT64_MOD in
  (st', to_int int_bits (Z.shiftr st' 33)).

(** The inverse of [XRANDOM_MUL] modulo [2 ^ 64]; not in the source, used
    to state that [xrandom] can be run backwards. *)
Definition XRANDOM_MUL_INV : Z := 0x6a340f3499231245.

(** The state before the call of [xrandom] that left the state [st]. *)
Definition xrandom_prev (st : Z) : Z :=
  ((st - 1) * XRANDOM_MUL_INV) mod UINT64_MOD.

(** ** Lemmas on chains *)

Lemma chain_nil (h : heap) (p : N) : chain h p [] ↔ p = NULL.
Proof. unfold chain; simpl. apply N.eqb_eq. Qed.

Lemma chain_cons (h : heap) (p a : N) (l : list N) :
  chain h p (a :: l) ↔
  p = a ∧ a ≠ NULL ∧ ∃ nd, h !! a = Some nd ∧ chain h (next nd) l.
Proof.
  unfold chain; simpl. split.
  - intros H. apply andb_true_iff in H as [H H3].
    apply andb_true_iff in H as [H1 H2].
    apply N.eqb_eq in H1. apply negb_true_iff, N.eqb_neq in H2.
    destruct (h !! a) as [nd|] eqn:E; [|discriminate]. eauto.
  - intros (-> & Hn & nd & E & Hc). rewrite E, Hc, N.eqb_refl.
    apply N.eqb_neq in Hn. rewrite Hn. reflexivity.
Qed.

Lemma chain_functional (h : heap) (l1 : list N) :
  ∀ p l2, chain h p l1 → chain h p l2 → l1 = l2.
Proof.
  induction l1 as [|a l1 IH]; intros p [|b l2] H1 H2; [done|..].
  - apply chain_nil in H1. apply chain_cons in H2 as (-> & ? & _). done.
  - apply chain_nil in H2. apply chain_cons in H1 as (-> & ? & _). done.
  - apply chain_cons in H1 as (-> & _ & n1 & E1 & H1).
    apply chain_cons in H2 as (<- & _ & n2 & E2 & H2).
    rewrite E1 in E2. injection E2 as <-. f_equal. eauto.
Qed.

Lemma chain_suffix (h : heap) (l1 : list N) :
  ∀ p a l2, chain h p (l1 ++ a :: l2) → chain h a (a :: l2).
Proof.
  induction l1 as [|b l1 IH]; intros p a l2 H; simpl in H.
  - pose proof H as H'. apply chain_cons in H' as (-> & _). exact H.
  - apply chain_cons in H as (_ & _ & nd & _ & H). eauto.
Qed.

(** A chain that ends in [NULL] visits no node twice. *)
Lemma chain_NoDup (h : heap) (l : list N) : ∀ p, chain h p l → NoDup l.
Proof.
  induction l as [|a l IH]; intros p H; [constructor|].
  pose proof H as H'. apply chain_cons in H' as (-> & _ & nd & E & Hl).
  constructor; [|eauto].
  intros Hin. apply list_elem_of_split in Hin as (l1 & l2 & ->).
  pose proof (chain_suffix _ _ _ _ _ Hl) as Hs.
  pose proof (chain_functional _ _ _ _ H Hs) as Heq.
  apply (f_equal length) in Heq. simpl in Heq.
  rewrite length_app in Heq. simpl in Heq. lia.
Qed.

(** Writing a node that is not on the chain leaves the chain as it is. *)
Lemma chain_insert_frame (h : heap) (b : N) (v : ObserverNode) (l : list N) :
  ∀ p, b ∉ l → chain h p l → chain (<[b := v]> h) p l.
Proof.
  induction l as [|a l IH]; intros p Hb H.
  - apply chain_nil in H. by apply chain_nil.
  - apply chain_cons in H as (-> & Ha & nd & E & H).
    apply not_elem_of_cons in Hb as [Hba Hb].
    apply chain_cons. split_and!; [done..|].
    exists nd. split; [|by apply IH].
    rewrite lookup_insert_ne; done.
Qed.

(** With fuel beyond its length, the notification loop walks a chain to its
    end and calls the nodes in chain order. *)
Lemma notify_loop_chain (h : heap) (l : list N) :
  ∀ fuel p, chain h p l → (length l < fuel)%nat →
  notify_loop fuel h p = Done (calls h l).
Proof.
  induction l as [|a l IH]; intros [|fuel] p H Hf; simpl in Hf; try lia.
  - apply chain_nil in H as ->. reflexivity.
  - apply chain_cons in H as (-> & Ha & nd & E & H).
    simpl. apply N.eqb_neq in Ha. rewrite Ha, E.
    rewrite (IH fuel _ H) by lia. simpl.
    unfold calls at 2. simpl. unfold call_of at 1. rewrite E. reflexivity.
Qed.

Lemma notifications_calls (h : heap) (l : list N) : notifications (calls h l) = 0%nat.
Proof.
  unfold notifications, calls. induction l as [|a l IH]; [done|].
  simpl. rewrite filter_app, length_app, IH.
  unfold call_of. destruct (h !! a) as [nd|]; [|done].
  destruct (negb _ && negb _); done.
Qed.

(** ** Lemmas on removal *)

Lemma filter_ne_absent (x : N) (l : list N) :
  x ∉ l → filter (λ y, y ≠ x) l = l.
Proof.
  induction l as [|a l IH]; intros Hx; [done|].
  apply not_elem_of_cons in Hx as [Hxa Hx].
  rewrite filter_cons_True by done. by rewrite IH.
Qed.

Lemma filter_ne_split (x : N) (l1 l2 : list N) :
  x ∉ l1 → x ∉ l2 → filter (λ y, y ≠ x) (l1 ++ x :: l2) = l1 ++ l2.
Proof.
  intros H1 H2. rewrite filter_app, filter_cons_False by naive_solver.
  by rewrite !filter_ne_absent.
Qed.

(** A handle that is not on the chain: the loop walks to [NULL] and writes
    nothing. *)
Lemma remove_loop_absent (x : N) (clk : Clock) (h : heap) (l : list N) :
  ∀ fuel cur p,
    load clk h cur = Done p → chain h p l → x ∉ l → (length l < fuel)%nat →
    remove_loop fuel clk h cur x = Done (clk, h).
Proof.
  induction l as [|a l IH]; intros [|fuel] cur p Hld Hc Hx Hf;
    simpl in Hf; try lia; simpl; rewrite Hld; simpl.
  - apply chain_nil in Hc as ->. reflexivity.
  - apply chain_cons in Hc as (-> & Ha & nd & E & Hc).
    apply not_elem_of_cons in Hx as [Hxa Hx].
    apply N.eqb_neq in Ha. rewrite Ha.
    assert ((a =? x)%N = false) as -> by (apply N.eqb_neq; done).
    apply (IH fuel (NextCell a) (next nd)); [|done..|lia].
    simpl. by rewrite E.
Qed.

Lemma remove_loop_found (x : N) (clk : Clock) (h : heap) (l2 l1 : list N) :
  ∀ fuel cur p,
    load clk h cur = Done p → chain h p (l1 ++ x :: l2) → x ∉ l1 →
    (length l1 < fuel)%nat →
    ∃ nx, h !! x = Some nx ∧
      remove_loop fuel clk h cur x = store clk h (cell_before cur l1) (next nx).
Proof.
  induction l1 as [|a l1 IH]; intros [|fuel] cur p Hld Hc Hx Hf;
    simpl in Hf; try lia; simpl in Hc;
    apply chain_cons in Hc as (-> & Ha & nd & E & Hc).
  - exists nd. split; [done|]. simpl. rewrite Hld. simpl.
    apply N.eqb_neq in Ha. by rewrite Ha, N.eqb_refl, E.
  - apply not_elem_of_cons in Hx as [Hxa Hx].
    destruct (IH fuel (NextCell a) (next nd)) as (nx & Ex & Hr);
      [by simpl; rewrite E|done..|lia|].
    exists nx. split; [done|]. simpl. rewrite Hld. simpl.
    apply N.eqb_neq in Ha. rewrite Ha.
    assert ((a =? x)%N = false) as -> by (apply N.eqb_neq; done).
    rewrite Hr. unfold cell_before.
    destruct l1 as [|a' l1]; [done|]. rewrite last_cons_cons.
    destruct (last (a' :: l1)) eqn:El; [done|]. by apply last_None in El.
Qed.

(** Redirecting the [next] field of [b] past [x] turns the chain
    [l1 ++ b :: x :: l2] into [l1 ++ b :: l2]. *)
Lemma chain_unlink (h : heap) (b x : N) (nb nx : ObserverNode) (l2 l1 : list N) :
  ∀ p, chain h p (l1 ++ b :: x :: l2) →
    h !! b = Some nb → h !! x = Some nx → b ∉ l1 → b ∉ l2 →
    chain (<[b := set_next nb (next nx)]> h) p (l1 ++ b :: l2).
Proof.
  induction l1 as [|a l1 IH]; intros p Hc Eb Ex Hb1 Hb2; simpl in *;
    apply chain_cons in Hc as (-> & Ha & nd & E & Hc); apply chain_cons.
  - split_and!; [done..|]. eexists. split; [apply lookup_insert_eq|]. simpl.
    apply chain_cons in Hc as (_ & _ & nx' & Ex' & Hc).
    rewrite Ex in Ex'. injection Ex' as <-.
    by apply chain_insert_frame.
  - apply not_elem_of_cons in Hb1 as [Hba Hb1].
    split_and!; [done..|]. exists nd. split; [by rewrite lookup_insert_ne|].
    by apply IH.
Qed.

(** [clock_remove_observer] on a well-formed registry: it returns, the
    registry that results is the old one without the handle, and nothing at
    all changes when the handle was not registered. *)
Lemma clock_remove_observer_spec (fuel : nat) (clk : Clock) (h : heap)
    (l : list N) (x : N) :
  chain h (observers clk) l → (length l < fuel)%nat →
  ∃ clk' h',
    clock_remove_observer fuel clk h x = Done (clk', h') ∧
    chain h' (observers clk') (filter (λ y, y ≠ x) l) ∧
    (x ∉ l → clk' = clk ∧ h' = h).
Proof.
  intros Hc Hf. unfold clock_remove_observer.
  destruct (decide (x ∈ l)) as [Hin|Hout].
  - pose proof (chain_NoDup _ _ _ Hc) as Hnd.
    apply list_elem_of_split in Hin as (l1 & l2 & ->).
    apply NoDup_app in Hnd as (Hnd1 & Hd & Hnd2).
    apply NoDup_cons in Hnd2 as [Hx2 Hnd2].
    assert (x ∉ l1) as Hx1 by (intros ?; eapply Hd; [done|left]).
    pose proof (chain_suffix _ _ _ _ _ Hc) as Hs.
    apply chain_cons in Hs as (_ & Hx0 & nx0 & Ex0 & Hl2).
    apply N.eqb_neq in Hx0 as Hx0b. rewrite Hx0b.
    destruct (remove_loop_found x clk h l2 l1 fuel HeadCell (observers clk))
      as (nx & Ex & Hr); [done..|rewrite length_app in Hf; lia|].
    rewrite Ex in Ex0. injection Ex0 as <-.
    rewrite Hr, filter_ne_split by done.
    destruct (last l1) as [b|] eqn:El; unfold cell_before; rewrite El.
    + apply last_Some in El as (l1' & ->).
      rewrite <- app_assoc in Hc. simpl in Hc.
      pose proof (chain_suffix _ _ _ _ _ Hc) as Hb.
      apply chain_cons in Hb as (_ & _ & nb & Eb & _).
      simpl. rewrite Eb. eexists _, _. split; [done|].
      apply NoDup_app in Hnd1 as (_ & Hd1 & _).
      split; [|intros Habs; exfalso; apply Habs; set_solver].
      rewrite <- app_assoc. simpl.
      apply (chain_unlink h b x nb nx); [done..| |].
      * intros ?. eapply Hd1; [done|left].
      * intros ?. eapply (Hd b); [set_solver|by right].
    + apply last_None in El as ->. simpl in *.
      eexists _, _. split; [done|].
      split; [done|]. intros Habs; exfalso; apply Habs; left.
  - destruct (x =? NULL)%N eqn:E0.
    + eexists _, _. split; [done|]. by rewrite filter_ne_absent.
    + rewrite (remove_loop_absent x clk h l fuel HeadCell (observers clk))
        by done.
      eexists _, _. split; [done|]. by rewrite filter_ne_absent.
Qed.

(** Why the registry has to be a chain that ends in [NULL]: once a node
    links to itself (the source's [clock_add_observer] called twice with
    the same node does that), the loop never leaves it when it looks for
    another handle. *)
Lemma remove_loop_self_link (clk : Clock) (h : heap) (a x : N)
    (na : ObserverNode) :
  h !! a = Some na → next na = a → a ≠ NULL → a ≠ x →
  ∀ fuel, remove_loop fuel clk h (NextCell a) x = Timeout.
Proof.
  intros E Hn Ha Hax fuel. induction fuel as [|fuel IH]; [done|].
  simpl. rewrite E. simpl. rewrite Hn.
  apply N.eqb_neq in Ha, Hax. by rewrite Ha, Hax.
Qed.

(** ** Lemmas on [clock_tick] *)

Section TickFacts.

Variable size_bits : N.

Local Abbreviation MOD := (SIZE_MOD size_bits).
Local Abbreviation tick := (clock_tick size_bits).
Local Abbreviation ticks := (clock_ticks size_bits).
Local Abbreviation acc := (accumulated size_bits).
Local Abbreviation lvl := (level size_bits).

Lemma SIZE_MOD_pos : 0 < MOD.
Proof. unfold SIZE_MOD. apply Z.pow_pos_nonneg; lia. Qed.

Lemma SIZE_MOD_ge (n : N) : (n ≤ size_bits)%N → 2 ^ Z.of_N n ≤ MOD.
Proof. intros H. unfold SIZE_MOD. apply Z.pow_le_mono_r; lia. Qed.

Lemma accumulated_range (clk : Clock) (d : Z) : 0 ≤ acc clk d < MOD.
Proof. unfold accumulated. apply Z.mod_pos_bound, SIZE_MOD_pos. Qed.

Lemma accumulated_small (clk : Clock) (d : Z) :
  0 ≤ time clk + d < MOD → acc clk d = time clk + d.
Proof. intros H. unfold accumulated. by apply Z.mod_small. Qed.

Lemma clock_tick_disabled (fuel : nat) (clk : Clock) (h : heap) (d : Z) :
  period clk = 0 → tick fuel clk h d = Done (clk, []).
Proof. intros H. unfold clock_tick. by rewrite H. Qed.

Lemma clock_tick_within (fuel : nat) (clk : Clock) (h : heap) (d : Z) :
  period clk ≠ 0 → acc clk d < period clk →
  tick fuel clk h d =
    Done (mkClock (lvl clk d) (period clk) (acc clk d) (observers clk), []).
Proof.
  intros Hp Ht. unfold clock_tick.
  apply Z.eqb_neq in Hp. rewrite Hp.
  fold (accumulated size_bits clk d).
  assert ((acc clk d >=? period clk) = false) as -> by lia.
  reflexivity.
Qed.

Lemma clock_tick_rollover (fuel : nat) (clk : Clock) (h : heap) (d : Z)
    (l : list N) :
  period clk ≠ 0 → period clk ≤ acc clk d →
  chain h (observers clk) l → (length l < fuel)%nat →
  tick fuel clk h d =
    Done (mkClock (lvl clk d) (period clk) 0 (observers clk),
          EvNotify :: calls h l).
Proof.
  intros Hp Ht Hc Hf. unfold clock_tick.
  apply Z.eqb_neq in Hp. rewrite Hp.
  fold (accumulated size_bits clk d).
  assert ((acc clk d >=? period clk) = true) as -> by lia.
  unfold clock_notify_listeners. simpl.
  by rewrite (notify_loop_chain h l fuel _ Hc Hf).
Qed.

(** Ticks of delta 0 on a clock at phase 0 stay at phase 0 and notify
    nobody. *)
Lemma clock_ticks_idle (fuel : nat) (h : heap) (ds : list Z) :
  ∀ clk, 0 < period clk → time clk = 0 → Forall (λ d, d = 0) ds →
  ∃ rs, ticks fuel clk h ds = Done rs ∧
        map snd rs = replicate (length ds) [].
Proof.
  induction ds as [|d ds IH]; intros clk Hp Ht Hds.
  - by exists [].
  - apply Forall_cons in Hds as [-> Hds].
    assert (acc clk 0 = 0) as Ha.
    { rewrite accumulated_small; [lia|]. pose proof SIZE_MOD_pos. lia. }
    simpl. rewrite clock_tick_within by lia. simpl.
    destruct (IH (mkClock (lvl clk 0) (period clk) (acc clk 0)
                          (observers clk))) as (rs & -> & Hrs); [done..|].
    simpl. eexists. split; [done|]. simpl. by rewrite Hrs.
Qed.

End TickFacts.

Section RunFacts.

Variable size_bits : N.

Local Abbreviation MOD := (SIZE_MOD size_bits).
Local Abbreviation tick := (clock_tick size_bits).
Local Abbreviation ticks := (clock_ticks size_bits).
Local Abbreviation acc := (accumulated size_bits).
Local Abbreviation lvl := (level size_bits).

Lemma clock_ticks_cons (fuel : nat) (clk clk' : Clock) (h : heap) (d : Z)
    (ds : list Z) (evs : list event) :
  tick fuel clk h d = Done (clk', evs) →
  ticks fuel clk h (d :: ds) =
    (rest ← ticks fuel clk' h ds; Done ((clk', evs) :: rest)).
Proof. intros H. simpl. by rewrite H. Qed.

Lemma sum_deltas_nonneg (ds : list Z) :
  Forall (λ d, 0 ≤ d) ds → 0 ≤ sum_deltas ds.
Proof. induction 1; simpl; lia. Qed.

Lemma sum_deltas_zero (ds : list Z) :
  Forall (λ d, 0 ≤ d) ds → sum_deltas ds = 0 → Forall (λ d, d = 0) ds.
Proof.
  induction 1 as [|d ds Hd Hds IH]; intros Hs; [constructor|].
  simpl in Hs. pose proof (sum_deltas_nonneg ds Hds).
  constructor; [lia|]. apply IH. lia.
Qed.

Lemma concat_replicate_nil {A : Type} (n : nat) :
  concat (replicate n (@nil A)) = [].
Proof. induction n; simpl; done. Qed.

(** A run whose deltas bring the phase from [time clk] to exactly the
    period: one tick reaches the period, the ticks before it stay below,
    the ticks after it have delta 0. *)
Lemma clock_ticks_reach_period (fuel : nat) (h : heap) (l : list N)
    (ds : list Z) :
  ∀ clk,
    0 ≤ time clk < period clk → period clk < MOD →
    Forall (λ d, 0 ≤ d) ds → time clk + sum_deltas ds = period clk →
    chain h (observers clk) l → (length l < fuel)%nat →
    ∃ before d after rs,
      ds = before ++ d :: after ∧
      time clk + sum_deltas before < period clk ∧
      time clk + sum_deltas before + d = period clk ∧
      ticks fuel clk h ds = Done rs ∧
      map snd rs = replicate (length before) [] ++
                   (EvNotify :: calls h l) :: replicate (length after) [].
Proof.
  induction ds as [|d ds IH]; intros clk Ht Hp Hds Hsum Hc Hf.
  - simpl in Hsum. lia.
  - apply Forall_cons in Hds as [Hd Hds]. simpl in Hsum.
    pose proof (sum_deltas_nonneg ds Hds) as Hnn.
    assert (acc clk d = time clk + d) as Ha
      by (apply accumulated_small; lia).
    destruct (decide (time clk + d < period clk)) as [Hlt|Hge].
    + rewrite (clock_ticks_cons fuel clk _ h d ds _
                 (clock_tick_within size_bits fuel clk h d ltac:(lia) ltac:(lia))).
      destruct (IH (mkClock (lvl clk d) (period clk) (acc clk d) (observers clk)))
        as (before & d' & after & rs & -> & Hb & Hd' & -> & Hrs);
        simpl; [lia|lia|done|lia|done|done|].
      exists (d :: before), d', after. eexists.
      simpl in *. split_and!; [done|lia|lia|done|].
      simpl. by rewrite Hrs.
    + assert (sum_deltas ds = 0) as Hz by lia.
      rewrite (clock_ticks_cons fuel clk _ h d ds _
                 (clock_tick_rollover size_bits fuel clk h d l
                    ltac:(lia) ltac:(lia) Hc Hf)).
      destruct (clock_ticks_idle size_bits fuel h ds
                  (mkClock (lvl clk d) (period clk) 0 (observers clk)))
        as (rs & -> & Hrs); simpl; [lia|done|by apply sum_deltas_zero|].
      exists [], d, ds. eexists.
      simpl. split_and!; [done|lia|lia|done|].
      simpl. by rewrite Hrs.
Qed.

End RunFacts.

(** ** Evaluation lemmas *)

(** [clock_tick] on a clock whose period and phase are known, when the sum
    fits in [size_t]. *)
Lemma clock_tick_within_eval (size_bits : N) (fuel : nat) (clk : Clock)
    (h : heap) (d p t : Z) :
  period clk = p → time clk = t → p ≠ 0 →
  0 ≤ t + d < SIZE_MOD size_bits → t + d < p →
  clock_tick size_bits fuel clk h d =
    Done (mkClock ((t + d) mod p <? p / 2) p (t + d) (observers clk), []).
Proof.
  intros <- <- Hp Hr Hlt.
  rewrite clock_tick_within; [|done|by rewrite accumulated_small].
  unfold level. by rewrite accumulated_small.
Qed.

Lemma clock_tick_rollover_eval (size_bits : N) (fuel : nat) (clk : Clock)
    (h : heap) (d p t : Z) (l : list N) :
  period clk = p → time clk = t → p ≠ 0 →
  0 ≤ t + d < SIZE_MOD size_bits → p ≤ t + d →
  chain h (observers clk) l → (length l < fuel)%nat →
  clock_tick size_bits fuel clk h d =
    Done (mkClock ((t + d) mod p <? p / 2) p 0 (observers clk),
          EvNotify :: calls h l).
Proof.
  intros <- <- Hp Hr Hge Hc Hf.
  rewrite (clock_tick_rollover size_bits fuel clk h d l);
    [|done|by rewrite accumulated_small|done..].
  unfold level. by rewrite accumulated_small.
Qed.

(** Adding a node that is not registered yet makes it the head of the
    chain. *)
Lemma clock_add_observer_chain (clk : Clock) (h : heap) (x : N)
    (nx : ObserverNode) (l : list N) :
  x ≠ NULL → h !! x = Some nx → x ∉ l → chain h (observers clk) l →
  clock_add_observer clk h x =
    Done (set_observers clk x, <[x := set_next nx (observers clk)]> h) ∧
  chain (<[x := set_next nx (observers clk)]> h) x (x :: l).
Proof.
  intros Hx Ex Hout Hc. unfold clock_add_observer.
  apply N.eqb_neq in Hx as Hxb. rewrite Hxb, Ex. split; [done|].
  apply chain_cons. split_and!; [done..|].
  eexists. split; [apply lookup_insert_eq|]. simpl.
  by apply chain_insert_frame.
Qed.

Lemma call_of_set (a cb d : N) (nd : ObserverNode) (h : heap) :
  h !! a = Some nd → callback nd = cb → data nd = d →
  cb ≠ NULL → d ≠ NULL →
  call_of h a = [EvCall a cb d].
Proof.
  intros E <- <- Hcb Hd. unfold call_of. rewrite E.
  apply N.eqb_neq in Hcb, Hd. by rewrite Hcb, Hd.
Qed.

(** * The claims *)

(** C1 as stated fails: on a fresh clock of period 100 the four ticks of
    25 leave the signal HIGH, LOW, LOW, HIGH, not HIGH, HIGH, LOW, LOW:
    the second tick brings the phase to 50, which is not below 50, and the
    fourth computes the signal from [100 mod 100 = 0]. *)
Lemma C1_counterexample :
  ∃ rs,
    clock_ticks 64 1 (clock_init 100) ∅ [25; 25; 25; 25] = Done rs ∧
    map (λ r, signal r.1) rs = [true; false; false; true] ∧
    map (λ r, signal r.1) rs ≠ [true; true; false; false].
Proof.
  eexists. split; [vm_compute; reflexivity|].
  split; [reflexivity|discriminate].
Qed.

(** C1, amended. For a clock of period 100 at phase 0 (as [clock_init 100]
    leaves it, with any well-formed registry added since), four ticks of
    delta 25 leave the signal HIGH, LOW, LOW, HIGH and the phase 25, 50,
    75, 0; the first three send no notification, the fourth resets the
    phase to 0 and sends exactly one, calling the registered observers in
    chain order. [size_t] is at least 8 bits wide. *)
Theorem C1_four_ticks_of_25 (size_bits : N) (fuel : nat) (clk : Clock)
    (h : heap) (l : list N) :
  (8 ≤ size_bits)%N →
  period clk = 100 → time clk = 0 →
  chain h (observers clk) l → (length l < fuel)%nat →
  clock_ticks size_bits fuel clk h [25; 25; 25; 25] =
    Done [ (mkClock true 100 25 (observers clk), []);
           (mkClock false 100 50 (observers clk), []);
           (mkClock false 100 75 (observers clk), []);
           (mkClock true 100 0 (observers clk), EvNotify :: calls h l) ].
Proof.
  intros Hw Hp Ht Hc Hf.
  pose proof (SIZE_MOD_ge size_bits 8 Hw) as Hm.
  change (2 ^ Z.of_N 8) with 256 in Hm.
  erewrite clock_ticks_cons
    by (apply (clock_tick_within_eval _ _ _ _ 25 100 0); (done || lia)).
  erewrite clock_ticks_cons
    by (apply (clock_tick_within_eval _ _ _ _ 25 100 25); (done || lia)).
  erewrite clock_ticks_cons
    by (apply (clock_tick_within_eval _ _ _ _ 25 100 50); (done || lia)).
  erewrite clock_ticks_cons
    by (apply (clock_tick_rollover_eval _ _ _ _ 25 100 75 l); (done || lia)).
  reflexivity.
Qed.

Lemma C1_four_ticks_of_25_witness :
  clock_ticks 64 1 (clock_init 100) ∅ [25; 25; 25; 25] =
    Done [ (mkClock true 100 25 NULL, []);
           (mkClock false 100 50 NULL, []);
           (mkClock false 100 75 NULL, []);
           (mkClock true 100 0 NULL, EvNotify :: calls ∅ []) ].
Proof.
  apply (C1_four_ticks_of_25 64 1 (clock_init 100) ∅ []);
    [vm_compute; discriminate | reflexivity | reflexivity | reflexivity
    | simpl; lia].
Defined.

(** C2 as stated fails: period 100, one tick of 150 on a fresh clock. The
    accumulated phase 150 gives [150 mod 100 = 50], not below 50, so the
    signal is LOW; the tick rolls over and stores phase 0, for which the
    stated predicate asks HIGH. *)
Lemma C2_counterexample :
  ∃ clk' evs,
    clock_tick 64 1 (clock_init 100) ∅ 150 = Done (clk', evs) ∧
    0 < period clk' ∧
    signal clk' ≠ ((time clk' mod period clk') <? (period clk' / 2)).
Proof.
  eexists _, _. split; [vm_compute; reflexivity|].
  split; [simpl; lia|]. vm_compute. discriminate.
Qed.

(** C2, amended. For every period [p > 0], after every tick the signal is
    [(a mod p) < p/2] for the accumulated phase [a] (old phase plus delta,
    modulo the width of [size_t]) the tick computed before any reset. On a
    tick that does not roll over [a] is the stored phase, so the signal is
    HIGH exactly when [phase < p/2], which is [(phase mod p) < p/2]; on a
    tick that rolls over the stored phase is 0 and the signal is the one
    of [a]. *)
Theorem C2_signal_of_accumulated_phase (size_bits : N) (fuel : nat)
    (clk : Clock) (h : heap) (delta : Z) (l : list N) :
  0 < period clk →
  chain h (observers clk) l → (length l < fuel)%nat →
  ∃ clk' evs,
    clock_tick size_bits fuel clk h delta = Done (clk', evs) ∧
    signal clk' =
      ((accumulated size_bits clk delta mod period clk) <? (period clk / 2)) ∧
    (accumulated size_bits clk delta < period clk →
       time clk' = accumulated size_bits clk delta ∧
       signal clk' = (time clk' <? (period clk' / 2)) ∧
       signal clk' = ((time clk' mod period clk') <? (period clk' / 2))) ∧
    (period clk ≤ accumulated size_bits clk delta → time clk' = 0).
Proof.
  intros Hp Hc Hf.
  pose proof (accumulated_range size_bits clk delta) as Hr.
  destruct (decide (accumulated size_bits clk delta < period clk)) as [Hlt|Hge].
  - rewrite clock_tick_within by lia. eexists _, _. split; [done|].
    simpl. split_and!; [done| |lia].
    intros _. unfold level. rewrite Z.mod_small by lia. done.
  - rewrite (clock_tick_rollover size_bits fuel clk h delta l) by (done || lia).
    eexists _, _. split; [done|].
    simpl. split_and!; [done|lia|done].
Qed.

Lemma C2_signal_of_accumulated_phase_witness :
  ∃ clk' evs,
    clock_tick 64 1 (clock_init 100) ∅ 150 = Done (clk', evs) ∧
    signal clk' =
      ((accumulated 64 (clock_init 100) 150 mod 100) <? (100 / 2)) ∧
    (accumulated 64 (clock_init 100) 150 < 100 →
       time clk' = accumulated 64 (clock_init 100) 150 ∧
       signal clk' = (time clk' <? (period clk' / 2)) ∧
       signal clk' = ((time clk' mod period clk') <? (period clk' / 2))) ∧
    (100 ≤ accumulated 64 (clock_init 100) 150 → time clk' = 0).
Proof.
  apply (C2_signal_of_accumulated_phase 64 1 (clock_init 100) ∅ 150 []);
    [simpl; lia | reflexivity | simpl; lia].
Defined.

(** C3. For every period [p > 0], a single tick whose delta is one period
    or more sends at most one notification, on a well-formed registry and
    with fuel for its length; when the sum does not wrap it sends exactly
    one and resets the phase to 0. For a clock of period 100 at phase 0,
    [tick(250)] sends exactly one notification, resets the phase to 0 and
    leaves the signal LOW ([size_t] at least 8 bits wide). *)
Theorem C3_one_notification_per_tick (size_bits : N) (fuel : nat)
    (clk : Clock) (h : heap) (delta : Z) (l : list N) :
  0 < period clk → period clk ≤ delta →
  chain h (observers clk) l → (length l < fuel)%nat →
  (∃ clk' evs,
     clock_tick size_bits fuel clk h delta = Done (clk', evs) ∧
     (notifications evs ≤ 1)%nat ∧
     (0 ≤ time clk → time clk + delta < SIZE_MOD size_bits →
        notifications evs = 1%nat ∧ time clk' = 0 ∧
        evs = EvNotify :: calls h l)) ∧
  ((8 ≤ size_bits)%N → period clk = 100 → time clk = 0 →
     clock_tick size_bits fuel clk h 250 =
       Done (mkClock false 100 0 (observers clk), EvNotify :: calls h l) ∧
     notifications (EvNotify :: calls h l) = 1%nat).
Proof.
  intros Hp Hd Hc Hf.
  assert (notifications (EvNotify :: calls h l) = 1%nat) as Hone.
  { unfold notifications. rewrite filter_cons_True by done. simpl.
    f_equal. apply notifications_calls. }
  split.
  - pose proof (accumulated_range size_bits clk delta) as Hr.
    destruct (decide (accumulated size_bits clk delta < period clk))
      as [Hlt|Hge].
    + rewrite clock_tick_within by lia. eexists _, _. split; [done|].
      split; [unfold notifications; simpl; lia|]. intros Ht Hs.
      rewrite accumulated_small in Hlt by lia. lia.
    + rewrite (clock_tick_rollover size_bits fuel clk h delta l)
        by (done || lia).
      eexists _, _. split; [done|]. rewrite Hone. done.
  - intros Hw Hp' Ht. split; [|done].
    pose proof (SIZE_MOD_ge size_bits 8 Hw) as Hm.
    change (2 ^ Z.of_N 8) with 256 in Hm.
    by rewrite (clock_tick_rollover_eval size_bits fuel clk h 250 100 0 l)
      by (done || lia).
Qed.

Lemma C3_one_notification_per_tick_witness :
  (∃ clk' evs,
     clock_tick 64 1 (clock_init 100) ∅ 250 = Done (clk', evs) ∧
     (notifications evs ≤ 1)%nat ∧
     (0 ≤ 0 → 0 + 250 < SIZE_MOD 64 →
        notifications evs = 1%nat ∧ time clk' = 0 ∧
        evs = EvNotify :: calls ∅ [])) ∧
  ((8 ≤ 64)%N → 100 = 100 → 0 = 0 →
     clock_tick 64 1 (clock_init 100) ∅ 250 =
       Done (mkClock false 100 0 NULL, EvNotify :: calls ∅ []) ∧
     notifications (EvNotify :: calls ∅ []) = 1%nat).
Proof.
  apply (C3_one_notification_per_tick 64 1 (clock_init 100) ∅ 250 []);
    [simpl; lia | simpl; lia | reflexivity | simpl; lia].
Defined.

(** C4. For every period [p > 0] that fits in [size_t], on a clock at phase
    0 with a well-formed registry, a run of ticks whose deltas sum to
    exactly [p] returns and sends exactly one notification: the run splits
    into the ticks before (cumulative phase still below [p], no event), the
    tick whose delta brings the cumulative phase to [p] (one notification
    pass over the registry), and the ticks after (no event). *)
Theorem C4_one_notification_per_period (size_bits : N) (fuel : nat)
    (clk : Clock) (h : heap) (deltas : list Z) (l : list N) :
  0 < period clk < SIZE_MOD size_bits → time clk = 0 →
  Forall (λ d, 0 ≤ d) deltas → sum_deltas deltas = period clk →
  chain h (observers clk) l → (length l < fuel)%nat →
  ∃ before d after rs,
    deltas = before ++ d :: after ∧
    sum_deltas before < period clk ∧
    sum_deltas before + d = period clk ∧
    clock_ticks size_bits fuel clk h deltas = Done rs ∧
    map snd rs = replicate (length before) [] ++
                 (EvNotify :: calls h l) :: replicate (length after) [] ∧
    notifications (concat (map snd rs)) = 1%nat.
Proof.
  intros Hp Ht Hds Hsum Hc Hf.
  destruct (clock_ticks_reach_period size_bits fuel h l deltas clk)
    as (before & d & after & rs & Hsplit & Hb & Hd & Hrun & Hrs);
    [lia|lia|done|lia|done|done|].
  exists before, d, after, rs. split_and!; [done|lia|lia|done|done|].
  rewrite Hrs, concat_app, concat_cons, !concat_replicate_nil, app_nil_r.
  simpl. unfold notifications. rewrite filter_cons_True by done. simpl.
  f_equal. apply notifications_calls.
Qed.

Lemma C4_one_notification_per_period_witness :
  ∃ before d after rs,
    [30; 0; 70; 0] = before ++ d :: after ∧
    sum_deltas before < 100 ∧
    sum_deltas before + d = 100 ∧
    clock_ticks 64 1 (clock_init 100) ∅ [30; 0; 70; 0] = Done rs ∧
    map snd rs = replicate (length before) [] ++
                 (EvNotify :: calls ∅ []) :: replicate (length after) [] ∧
    notifications (concat (map snd rs)) = 1%nat.
Proof.
  apply (C4_one_notification_per_period 64 1 (clock_init 100) ∅
           [30; 0; 70; 0] []);
    [vm_compute; intuition congruence | reflexivity
    | repeat constructor; lia | reflexivity | reflexivity | simpl; lia].
Defined.

(** C5. For every period [p > 0], on a well-formed registry and with fuel
    for its length, [clock_tick] returns and leaves [0 <= phase < p]: a
    tick that does not roll over stores the accumulated phase, which is
    below the period, and a tick that rolls over stores exactly 0. *)
Theorem C5_phase_in_range (size_bits : N) (fuel : nat) (clk : Clock)
    (h : heap) (delta : Z) (l : list N) :
  0 < period clk →
  chain h (observers clk) l → (length l < fuel)%nat →
  ∃ clk' evs,
    clock_tick size_bits fuel clk h delta = Done (clk', evs) ∧
    period clk' = period clk ∧
    0 ≤ time clk' < period clk' ∧
    (accumulated size_bits clk delta < period clk →
       time clk' = accumulated size_bits clk delta ∧ evs = []) ∧
    (period clk ≤ accumulated size_bits clk delta →
       time clk' = 0 ∧ evs = EvNotify :: calls h l).
Proof.
  intros Hp Hc Hf.
  pose proof (accumulated_range size_bits clk delta) as Hr.
  destruct (decide (accumulated size_bits clk delta < period clk)) as [Hlt|Hge].
  - rewrite clock_tick_within by lia. eexists _, _. split; [done|].
    simpl. split_and!; [done|lia|lia|done|lia].
  - rewrite (clock_tick_rollover size_bits fuel clk h delta l) by (done || lia).
    eexists _, _. split; [done|].
    simpl. split_and!; [done|lia|lia|lia|done].
Qed.

Lemma C5_phase_in_range_witness :
  ∃ clk' evs,
    clock_tick 64 1 (clock_init 100) ∅ 250 = Done (clk', evs) ∧
    period clk' = 100 ∧
    0 ≤ time clk' < period clk' ∧
    (accumulated 64 (clock_init 100) 250 < 100 →
       time clk' = accumulated 64 (clock_init 100) 250 ∧ evs = []) ∧
    (100 ≤ accumulated 64 (clock_init 100) 250 →
       time clk' = 0 ∧ evs = EvNotify :: calls ∅ []).
Proof.
  apply (C5_phase_in_range 64 1 (clock_init 100) ∅ 250 []);
    [simpl; lia | reflexivity | simpl; lia].
Defined.

(** C6. Right after [clock_init p], for every period [p] (so for every
    [p > 0]) and before any tick: the signal is HIGH, the phase is 0, and
    the registry is empty: the head is [NULL], it is the empty chain in
    every store, and a notification pass over it calls nobody. *)
Theorem C6_init_state (p : Z) :
  signal (clock_init p) = true ∧
  time (clock_init p) = 0 ∧
  period (clock_init p) = p ∧
  observers (clock_init p) = NULL ∧
  (∀ h : heap, chain h (observers (clock_init p)) []) ∧
  (∀ (h : heap) (fuel : nat),
     clock_notify_listeners (S fuel) (clock_init p) h = Done [EvNotify]).
Proof. split_and!; done. Qed.

(** C7. On a clock whose period is 0, [clock_tick] returns the clock as it
    was and no event, whatever the delta, the store and the fuel; so does
    every run of ticks, whatever its length. The store is only read by
    [clock_tick], so the registry is the same as well. *)
Theorem C7_zero_period_noop (size_bits : N) (fuel : nat) (clk : Clock)
    (h : heap) :
  period clk = 0 →
  (∀ delta, clock_tick size_bits fuel clk h delta = Done (clk, [])) ∧
  (∀ deltas, clock_ticks size_bits fuel clk h deltas =
             Done (replicate (length deltas) (clk, []))).
Proof.
  intros Hp. split.
  - intros delta. by apply clock_tick_disabled.
  - intros deltas. induction deltas as [|d ds IH]; [done|].
    rewrite (clock_ticks_cons size_bits fuel clk clk h d ds []
               (clock_tick_disabled size_bits fuel clk h d Hp)).
    by rewrite IH.
Qed.

Lemma C7_zero_period_noop_witness :
  (∀ delta, clock_tick 64 0 (clock_init 0) ∅ delta = Done (clock_init 0, [])) ∧
  (∀ deltas, clock_ticks 64 0 (clock_init 0) ∅ deltas =
             Done (replicate (length deltas) (clock_init 0, []))).
Proof. apply (C7_zero_period_noop 64 0 (clock_init 0) ∅). reflexivity. Defined.

(** C8. Observers A and B (distinct nodes of the store, callback and data
    set) are added in this order to an empty registry. One notification
    pass then calls each of them exactly once, B before A. When B is
    removed before the pass, the pass calls A alone, once. *)
Theorem C8_add_two_then_notify (fuel : nat) (clk : Clock) (h : heap)
    (a b : N) (na nb : ObserverNode) :
  observers clk = NULL →
  a ≠ NULL → b ≠ NULL → a ≠ b →
  h !! a = Some na → h !! b = Some nb →
  callback na ≠ NULL → data na ≠ NULL →
  callback nb ≠ NULL → data nb ≠ NULL →
  (2 < fuel)%nat →
  ('(c1, h1) ← clock_add_observer clk h a;
   '(c2, h2) ← clock_add_observer c1 h1 b;
   clock_notify_listeners fuel c2 h2)
  = Done [EvNotify; EvCall b (callback nb) (data nb);
          EvCall a (callback na) (data na)]
  ∧
  ('(c1, h1) ← clock_add_observer clk h a;
   '(c2, h2) ← clock_add_observer c1 h1 b;
   '(c3, h3) ← clock_remove_observer fuel c2 h2 b;
   clock_notify_listeners fuel c3 h3)
  = Done [EvNotify; EvCall a (callback na) (data na)].
Proof.
  intros Hobs Ha Hb Hab Ea Eb Hca Hda Hcb Hdb Hf.
  assert (chain h (observers clk) []) as Hc0 by (by apply chain_nil).
  destruct (clock_add_observer_chain clk h a na [] Ha Ea) as [Hadd0 Hc1];
    [set_solver|done|].
  rewrite Hadd0. clear Hadd0.
  set (c1 := set_observers clk a) in *.
  set (h1 := <[a := set_next na (observers clk)]> h) in *.
  assert (h1 !! b = Some nb) as Eb1
    by (unfold h1; rewrite lookup_insert_ne; done).
  destruct (clock_add_observer_chain c1 h1 b nb [a] Hb Eb1) as [Hadd Hc2];
    [apply not_elem_of_cons; split; [congruence|apply not_elem_of_nil]|done|].
  cbn [mbind outcome_bind]. rewrite Hadd. cbn [mbind outcome_bind].
  clear Hadd.
  set (c2 := set_observers c1 b) in *.
  set (h2 := <[b := set_next nb (observers c1)]> h1) in *.
  assert (h2 !! b = Some (set_next nb a)) as Eb2
    by (unfold h2; apply lookup_insert_eq).
  assert (h2 !! a = Some (set_next na (observers clk))) as Ea2.
  { unfold h2. rewrite lookup_insert_ne by done.
    unfold h1. apply lookup_insert_eq. }
  assert (call_of h2 a = [EvCall a (callback na) (data na)]) as Hca2
    by (by apply (call_of_set _ _ _ _ _ Ea2)).
  assert (call_of h2 b = [EvCall b (callback nb) (data nb)]) as Hcb2
    by (by apply (call_of_set _ _ _ _ _ Eb2)).
  split.
  - unfold clock_notify_listeners.
    rewrite (notify_loop_chain h2 [b; a] fuel (observers c2)) by (done || simpl; lia).
    unfold calls. simpl. by rewrite Hca2, Hcb2.
  - pose proof Hc2 as Hc2'.
    apply chain_cons in Hc2' as (_ & _ & nb' & Eb' & Hc3).
    rewrite Eb2 in Eb'. injection Eb' as <-. simpl in Hc3.
    unfold clock_remove_observer.
    apply N.eqb_neq in Hb as Hbb. rewrite Hbb.
    destruct (remove_loop_found b c2 h2 [a] [] fuel HeadCell (observers c2))
      as (nb' & Eb' & ->); [done|done|set_solver|simpl; lia|].
    rewrite Eb2 in Eb'. injection Eb' as <-.
    unfold cell_before. simpl.
    unfold clock_notify_listeners. simpl.
    rewrite (notify_loop_chain h2 [a] fuel a) by (done || simpl; lia).
    unfold calls. simpl. by rewrite Hca2.
Qed.

Lemma C8_add_two_then_notify_witness :
  ('(c1, h1) ← clock_add_observer (clock_init 100)
                 (<[1%N := mkNode 10 20 7]> (<[2%N := mkNode 11 21 9]> ∅)) 1;
   '(c2, h2) ← clock_add_observer c1 h1 2;
   clock_notify_listeners 3 c2 h2)
  = Done [EvNotify; EvCall 2 11 21; EvCall 1 10 20]
  ∧
  ('(c1, h1) ← clock_add_observer (clock_init 100)
                 (<[1%N := mkNode 10 20 7]> (<[2%N := mkNode 11 21 9]> ∅)) 1;
   '(c2, h2) ← clock_add_observer c1 h1 2;
   '(c3, h3) ← clock_remove_observer 3 c2 h2 2;
   clock_notify_listeners 3 c3 h3)
  = Done [EvNotify; EvCall 1 10 20].
Proof.
  apply (C8_add_two_then_notify 3 (clock_init 100)
           (<[1%N := mkNode 10 20 7]> (<[2%N := mkNode 11 21 9]> ∅))
           1 2 (mkNode 10 20 7) (mkNode 11 21 9));
    first [ reflexivity | discriminate | (simpl; lia) ].
Defined.

(** C9. On a well-formed registry and with fuel for its length,
    [clock_remove_observer] with a handle that is not registered (never
    added, already removed, or [NULL]) returns without a fault and leaves
    the clock and the store as they were. With any handle it returns, the
    registry that results is the old chain without the handle, in the same
    order, and a second removal of the same handle returns that very
    state. *)
Theorem C9_remove_unregistered_noop (fuel : nat) (clk : Clock) (h : heap)
    (l : list N) (x : N) :
  chain h (observers clk) l → (length l < fuel)%nat →
  (x ∉ l → clock_remove_observer fuel clk h x = Done (clk, h)) ∧
  (∃ clk' h',
     clock_remove_observer fuel clk h x = Done (clk', h') ∧
     chain h' (observers clk') (filter (λ y, y ≠ x) l) ∧
     (x ∉ filter (λ y, y ≠ x) l) ∧
     clock_remove_observer fuel clk' h' x = Done (clk', h')).
Proof.
  intros Hc Hf.
  destruct (clock_remove_observer_spec fuel clk h l x Hc Hf)
    as (clk' & h' & Hr & Hc' & Hsame).
  assert (x ∉ filter (λ y, y ≠ x) l) as Hx.
  { intros Hin. apply list_elem_of_filter in Hin as [Hne _]. done. }
  split.
  - intros Hout. destruct (Hsame Hout) as [-> ->]. done.
  - exists clk', h'. split_and!; [done..|].
    assert (length (filter (λ y, y ≠ x) l) < fuel)%nat as Hf'.
    { pose proof (length_filter (λ y, y ≠ x) l). lia. }
    destruct (clock_remove_observer_spec fuel clk' h' _ x Hc' Hf')
      as (clk'' & h'' & Hr' & _ & Hsame').
    destruct (Hsame' Hx) as [-> ->]. done.
Qed.

Lemma C9_remove_unregistered_noop_witness :
  (1%N ∉ [2%N; 1%N] →
   clock_remove_observer 3 (mkClock true 100 0 2)
     (<[2%N := mkNode 11 21 1]> (<[1%N := mkNode 10 20 0]> ∅)) 1
   = Done (mkClock true 100 0 2,
           <[2%N := mkNode 11 21 1]> (<[1%N := mkNode 10 20 0]> ∅))) ∧
  (∃ clk' h',
     clock_remove_observer 3 (mkClock true 100 0 2)
       (<[2%N := mkNode 11 21 1]> (<[1%N := mkNode 10 20 0]> ∅)) 1
     = Done (clk', h') ∧
     chain h' (observers clk') (filter (λ y, y ≠ 1%N) [2%N; 1%N]) ∧
     (1%N ∉ filter (λ y, y ≠ 1%N) [2%N; 1%N]) ∧
     clock_remove_observer 3 clk' h' 1 = Done (clk', h')).
Proof.
  apply (C9_remove_unregistered_noop 3 (mkClock true 100 0 2)
           (<[2%N := mkNode 11 21 1]> (<[1%N := mkNode 10 20 0]> ∅))
           [2%N; 1%N] 1%N); [vm_compute; reflexivity | simpl; lia].
Defined.

(** C10. The phase is accumulated in [size_t]: when the true sum
    [phase + delta] is at least the period but its value modulo
    [2 ^ size_bits] is below the period, the tick sends no notification
    and does not reset the phase; it stores the wrapped sum, which is the
    true sum minus [2 ^ size_bits] and lies below the old phase. *)
Theorem C10_wrapped_sum_loses_boundary (size_bits : N) (fuel : nat)
    (clk : Clock) (h : heap) (delta : Z) :
  0 < period clk →
  0 ≤ time clk < SIZE_MOD size_bits →
  0 ≤ delta < SIZE_MOD size_bits →
  period clk ≤ time clk + delta →
  (time clk + delta) mod SIZE_MOD size_bits < period clk →
  clock_tick size_bits fuel clk h delta =
    Done (mkClock (level size_bits clk delta) (period clk)
                  (time clk + delta - SIZE_MOD size_bits) (observers clk), []) ∧
  0 ≤ time clk + delta - SIZE_MOD size_bits < time clk.
Proof.
  intros Hp Ht Hd Hsum Hw.
  assert (SIZE_MOD size_bits ≤ time clk + delta) as Hov.
  { destruct (decide (SIZE_MOD size_bits ≤ time clk + delta)); [done|].
    rewrite Z.mod_small in Hw by lia. lia. }
  assert (accumulated size_bits clk delta =
          time clk + delta - SIZE_MOD size_bits) as Ha.
  { unfold accumulated. symmetry.
    apply (Z.mod_unique_pos _ _ 1); lia. }
  split; [|lia].
  rewrite clock_tick_within; [by rewrite Ha|lia|].
  unfold accumulated. lia.
Qed.

Lemma C10_wrapped_sum_loses_boundary_witness :
  clock_tick 64 0 (mkClock false 100 50 NULL) ∅ (2 ^ 64 - 10) =
    Done (mkClock (level 64 (mkClock false 100 50 NULL) (2 ^ 64 - 10)) 100
                  (50 + (2 ^ 64 - 10) - SIZE_MOD 64) NULL, []) ∧
  0 ≤ 50 + (2 ^ 64 - 10) - SIZE_MOD 64 < 50.
Proof.
  apply (C10_wrapped_sum_loses_boundary 64 0 (mkClock false 100 50 NULL) ∅
           (2 ^ 64 - 10)); vm_compute; intuition congruence.
Defined.

(** * Further properties of the registry *)

Lemma set_observers_twice (clk : Clock) (p q : N) :
  set_observers (set_observers clk p) q = set_observers clk q.
Proof. reflexivity. Qed.

Lemma set_observers_same (clk : Clock) : set_observers clk (observers clk) = clk.
Proof. by destruct clk. Qed.

(** Rewriting a [next] field changes no callback and no data. *)
Lemma call_of_set_next (h : heap) (b p : N) (nb : ObserverNode) (y : N) :
  h !! b = Some nb → call_of (<[b := set_next nb p]> h) y = call_of h y.
Proof.
  intros Eb. unfold call_of. destruct (decide (b = y)) as [->|Hne].
  - by rewrite lookup_insert_eq, Eb.
  - by rewrite lookup_insert_ne.
Qed.

Lemma calls_set_next (h : heap) (b p : N) (nb : ObserverNode) (l : list N) :
  h !! b = Some nb → calls (<[b := set_next nb p]> h) l = calls h l.
Proof.
  intros Eb. unfold calls. f_equal. apply map_ext. intros y.
  by apply call_of_set_next.
Qed.

Lemma clock_notify_listeners_chain (fuel : nat) (clk : Clock) (h : heap)
    (l : list N) :
  chain h (observers clk) l → (length l < fuel)%nat →
  clock_notify_listeners fuel clk h = Done (EvNotify :: calls h l).
Proof.
  intros Hc Hf. unfold clock_notify_listeners.
  by rewrite (notify_loop_chain h l fuel _ Hc Hf).
Qed.



(** X2. Adding a fresh node and removing it again gives back the clock as
    it was and the registry as it was: the same chain in the same order,
    the same notification pass. The store differs from the old one in the
    [next] field of that node only. *)
Theorem X2_add_then_remove_roundtrip (fuel : nat) (clk : Clock) (h : heap)
    (x : N) (nx : ObserverNode) (l : list N) :
  x ≠ NULL → h !! x = Some nx → x ∉ l →
  chain h (observers clk) l → (length l < fuel)%nat →
  ('(c1, h1) ← clock_add_observer clk h x;
   clock_remove_observer fuel c1 h1 x)
  = Done (clk, <[x := set_next nx (observers clk)]> h) ∧
  chain (<[x := set_next nx (observers clk)]> h) (observers clk) l ∧
  clock_notify_listeners fuel clk (<[x := set_next nx (observers clk)]> h)
  = clock_notify_listeners fuel clk h.
Proof.
  intros Hx Ex Hout Hc Hf.
  destruct (clock_add_observer_chain clk h x nx l Hx Ex Hout Hc) as [Hadd Hc'].
  rewrite Hadd. cbn [mbind outcome_bind].
  assert (chain (<[x := set_next nx (observers clk)]> h) (observers clk) l)
    as Hc2 by (by apply chain_insert_frame).
  split_and!; [|done|].
  - unfold clock_remove_observer.
    apply N.eqb_neq in Hx as Hxb. rewrite Hxb.
    destruct (remove_loop_found x (set_observers clk x)
                (<[x := set_next nx (observers clk)]> h) l [] fuel HeadCell x)
      as (nx' & Ex' & ->); [done|done|apply not_elem_of_nil|simpl; lia|].
    rewrite lookup_insert_eq in Ex'. injection Ex' as <-.
    unfold cell_before. simpl.
    by rewrite set_observers_twice, set_observers_same.
  - rewrite !(clock_notify_listeners_chain fuel clk _ l) by done.
    by rewrite calls_set_next.
Qed.

Lemma X2_add_then_remove_roundtrip_witness :
  ('(c1, h1) ← clock_add_observer (mkClock true 100 0 1) two_nodes 2;
   clock_remove_observer 2 c1 h1 2)
  = Done (mkClock true 100 0 1,
          <[2%N := set_next (mkNode 11 21 9) 1]> two_nodes) ∧
  chain (<[2%N := set_next (mkNode 11 21 9) 1]> two_nodes) 1 [1%N] ∧
  clock_notify_listeners 2 (mkClock true 100 0 1)
    (<[2%N := set_next (mkNode 11 21 9) 1]> two_nodes)
  = clock_notify_listeners 2 (mkClock true 100 0 1) two_nodes.
Proof.
  apply (X2_add_then_remove_roundtrip 2 (mkClock true 100 0 1) two_nodes
           2 (mkNode 11 21 9) [1%N]);
    [discriminate | reflexivity
    | apply not_elem_of_cons; split; [discriminate|apply not_elem_of_nil]
    | reflexivity | simpl; lia].
Defined.

(** Whatever [store] writes, it is a [next] field or the head of the
    list. *)
Lemma store_preserves (clk clk' : Clock) (h h' : heap) (c : cell) (p : N) :
  store clk h c p = Done (clk', h') →
  signal clk' = signal clk ∧ period clk' = period clk ∧
  time clk' = time clk ∧
  (∀ y, call_of h' y = call_of h y) ∧
  (∀ y, is_Some (h' !! y) ↔ is_Some (h !! y)).
Proof.
  destruct c as [|b]; simpl.
  - intros [= <- <-]. done.
  - destruct (h !! b) as [nb|] eqn:Eb; [|done]. intros [= <- <-].
    split_and!; [done..| |].
    + intros y. by apply call_of_set_next.
    + intros y. destruct (decide (b = y)) as [->|Hne].
      * rewrite lookup_insert_eq, Eb. split; eauto.
      * by rewrite lookup_insert_ne.
Qed.

Lemma remove_loop_preserves (x : N) (clk clk' : Clock) (h h' : heap) :
  ∀ fuel cur,
    remove_loop fuel clk h cur x = Done (clk', h') →
    signal clk' = signal clk ∧ period clk' = period clk ∧
    time clk' = time clk ∧
    (∀ y, call_of h' y = call_of h y) ∧
    (∀ y, is_Some (h' !! y) ↔ is_Some (h !! y)).
Proof.
  induction fuel as [|fuel IH]; intros cur; [done|]. simpl.
  destruct (load clk h cur) as [p| |]; [|done..]. simpl.
  destruct (p =? NULL)%N; [by intros [= <- <-]|].
  destruct (p =? x)%N; [|apply IH].
  destruct (h !! x) as [nd|]; [|done]. apply store_preserves.
Qed.

(** [clock_remove_observer] writes no signal, period, phase, callback or
    data, and neither allocates nor frees a node. *)
Lemma clock_remove_observer_preserves (fuel : nat) (x : N)
    (clk clk' : Clock) (h h' : heap) :
  clock_remove_observer fuel clk h x = Done (clk', h') →
  signal clk' = signal clk ∧ period clk' = period clk ∧
  time clk' = time clk ∧
  (∀ y, call_of h' y = call_of h y) ∧
  (∀ y, is_Some (h' !! y) ↔ is_Some (h !! y)).
Proof.
  unfold clock_remove_observer. destruct (x =? NULL)%N.
  - by intros [= <- <-].
  - apply remove_loop_preserves.
Qed.

Lemma calls_ext (h h' : heap) (l : list N) :
  (∀ y, call_of h' y = call_of h y) → calls h' l = calls h l.
Proof. intros H. unfold calls. f_equal. by apply map_ext. Qed.

Lemma not_elem_of_filter_ne (x : N) (l : list N) : x ∉ filter (λ y, y ≠ x) l.
Proof. intros Hin. apply list_elem_of_filter in Hin as [Hne _]. done. Qed.

(** A pass calls registered nodes only. *)
Lemma calls_not_called (h : heap) (x cb d : N) (l : list N) :
  x ∉ l → EvCall x cb d ∉ calls h l.
Proof.
  induction l as [|a l IH]; intros Hx; [apply not_elem_of_nil|].
  apply not_elem_of_cons in Hx as [Hxa Hx].
  unfold calls. simpl. apply not_elem_of_app. split; [|by apply IH].
  unfold call_of. destruct (h !! a) as [nd|]; [|apply not_elem_of_nil].
  destruct (negb _ && negb _); [|apply not_elem_of_nil].
  intros Hin. apply list_elem_of_singleton in Hin. congruence.
Qed.

(** X3. Removing a handle from a well-formed registry returns and touches
    neither signal, period nor phase; the next notification pass calls the
    observers that remain, in their old order and with their old callback
    and data, and does not call the removed one. *)
Theorem X3_remove_then_notify (fuel : nat) (clk : Clock) (h : heap)
    (l : list N) (x : N) :
  chain h (observers clk) l → (length l < fuel)%nat →
  ∃ clk' h',
    clock_remove_observer fuel clk h x = Done (clk', h') ∧
    signal clk' = signal clk ∧ period clk' = period clk ∧
    time clk' = time clk ∧
    clock_notify_listeners fuel clk' h' =
      Done (EvNotify :: calls h (filter (λ y, y ≠ x) l)) ∧
    (∀ cb d, EvCall x cb d ∉ calls h (filter (λ y, y ≠ x) l)).
Proof.
  intros Hc Hf.
  destruct (clock_remove_observer_spec fuel clk h l x Hc Hf)
    as (clk' & h' & Hr & Hc' & _).
  destruct (clock_remove_observer_preserves _ _ _ _ _ _ Hr)
    as (Hs & Hp & Ht & Hcall & _).
  exists clk', h'. split_and!; [done..| |].
  - rewrite (clock_notify_listeners_chain fuel clk' h' _ Hc').
    + by rewrite (calls_ext h h').
    + pose proof (length_filter (λ y, y ≠ x) l). lia.
  - intros cb d. apply calls_not_called, not_elem_of_filter_ne.
Qed.

Lemma X3_remove_then_notify_witness :
  ∃ clk' h',
    clock_remove_observer 2 (mkClock true 100 0 1) two_nodes 1
    = Done (clk', h') ∧
    signal clk' = true ∧ period clk' = 100 ∧ time clk' = 0 ∧
    clock_notify_listeners 2 clk' h' =
      Done (EvNotify :: calls two_nodes (filter (λ y, y ≠ 1%N) [1%N])) ∧
    (∀ cb d, EvCall 1 cb d ∉ calls two_nodes (filter (λ y, y ≠ 1%N) [1%N])).
Proof.
  apply (X3_remove_then_notify 2 (mkClock true 100 0 1) two_nodes [1%N] 1%N);
    [reflexivity | simpl; lia].
Defined.



Lemma notify_loop_self_link (h : heap) (x : N) (nd : ObserverNode) :
  x ≠ NULL → h !! x = Some nd → next nd = x →
  ∀ fuel, notify_loop fuel h x = Timeout.
Proof.
  intros Hx E Hn fuel. induction fuel as [|fuel IH]; [done|].
  simpl. apply N.eqb_neq in Hx. by rewrite Hx, E, Hn, IH.
Qed.

Lemma clock_add_observer_allocated (clk : Clock) (h : heap) (x : N)
    (nx : ObserverNode) :
  x ≠ NULL → h !! x = Some nx →
  clock_add_observer clk h x =
    Done (set_observers clk x, <[x := set_next nx (observers clk)]> h).
Proof.
  intros Hx Ex. unfold clock_add_observer.
  apply N.eqb_neq in Hx. by rewrite Hx, Ex.
Qed.

(** X5. [clock_add_observer] does not check whether the node is registered
    already. Adding the same allocated node twice in a row, on any
    registry, links the node to itself: no notification pass and no search
    for another handle comes to an end, whatever the fuel, and removing
    the node itself leaves it registered. *)
Theorem X5_add_twice_self_link (clk : Clock) (h : heap) (x : N)
    (nx : ObserverNode) :
  x ≠ NULL → h !! x = Some nx →
  ∃ clk' h',
    ('(c1, h1) ← clock_add_observer clk h x; clock_add_observer c1 h1 x)
    = Done (clk', h') ∧
    observers clk' = x ∧
    h' !! x = Some (set_next nx x) ∧
    (∀ fuel, clock_notify_listeners fuel clk' h' = Timeout) ∧
    (∀ fuel y, y ≠ NULL → y ≠ x →
       clock_remove_observer fuel clk' h' y = Timeout) ∧
    (∀ fuel, clock_remove_observer (S fuel) clk' h' x = Done (clk', h')).
Proof.
  intros Hx Ex. apply N.eqb_neq in Hx as Hxb.
  rewrite (clock_add_observer_allocated clk h x nx Hx Ex).
  cbn [mbind outcome_bind].
  rewrite (clock_add_observer_allocated _ _ x _ Hx (lookup_insert_eq _ _ _)).
  eexists _, _. split; [done|]. simpl.
  set (h' := <[x := set_next (set_next nx (observers clk)) x]> _).
  assert (h' !! x = Some (set_next nx x)) as Ex'
    by (unfold h'; apply lookup_insert_eq).
  split_and!; [done|done|..].
  - intros fuel. unfold clock_notify_listeners. simpl.
    by rewrite (notify_loop_self_link h' x _ Hx Ex').
  - intros fuel y Hy Hyx. unfold clock_remove_observer.
    apply N.eqb_neq in Hy. rewrite Hy.
    destruct fuel as [|fuel]; [done|]. simpl. rewrite Hxb.
    assert ((x =? y)%N = false) as -> by (apply N.eqb_neq; congruence).
    apply (remove_loop_self_link _ h' x y (set_next nx x)); [done..|congruence].
  - intros fuel. unfold clock_remove_observer. rewrite Hxb. simpl.
    by rewrite Hxb, N.eqb_refl, Ex'.
Qed.

Lemma X5_add_twice_self_link_witness :
  ∃ clk' h',
    ('(c1, h1) ← clock_add_observer (clock_init 100) two_nodes 2;
     clock_add_observer c1 h1 2)
    = Done (clk', h') ∧
    observers clk' = 2%N ∧
    h' !! 2%N = Some (set_next (mkNode 11 21 9) 2) ∧
    (∀ fuel, clock_notify_listeners fuel clk' h' = Timeout) ∧
    (∀ fuel y, y ≠ NULL → y ≠ 2%N →
       clock_remove_observer fuel clk' h' y = Timeout) ∧
    (∀ fuel, clock_remove_observer (S fuel) clk' h' 2 = Done (clk', h')).
Proof.
  apply (X5_add_twice_self_link (clock_init 100) two_nodes 2 (mkNode 11 21 9));
    [discriminate | reflexivity].
Defined.

Lemma elem_of_call_of (h : heap) (a b cb d : N) :
  EvCall a cb d ∈ call_of h b ↔
  a = b ∧ ∃ nd, h !! b = Some nd ∧ callback nd = cb ∧ data nd = d ∧
                cb ≠ NULL ∧ d ≠ NULL.
Proof.
  unfold call_of. destruct (h !! b) as [nd|] eqn:E.
  - destruct (callback nd =? NULL)%N eqn:Ec; simpl.
    + apply N.eqb_eq in Ec. split; [by intros ?%elem_of_nil|].
      intros (_ & nd' & [= <-] & <- & _ & Hc & _). done.
    + apply N.eqb_neq in Ec.
      destruct (data nd =? NULL)%N eqn:Ed; simpl.
      * apply N.eqb_eq in Ed. split; [by intros ?%elem_of_nil|].
        intros (_ & nd' & [= <-] & _ & <- & _ & Hd). done.
      * apply N.eqb_neq in Ed. rewrite list_elem_of_singleton. split.
        -- intros [= -> -> ->]. eauto 10.
        -- intros (-> & nd' & [= <-] & <- & <- & _). done.
  - split; [by intros ?%elem_of_nil|]. intros (_ & nd & [=] & _).
Qed.

Lemma elem_of_calls (h : heap) (l : list N) (a cb d : N) :
  EvCall a cb d ∈ calls h l ↔
  a ∈ l ∧ ∃ nd, h !! a = Some nd ∧ callback nd = cb ∧ data nd = d ∧
                cb ≠ NULL ∧ d ≠ NULL.
Proof.
  induction l as [|b l IH].
  - split; [by intros ?%elem_of_nil|]. by intros [?%elem_of_nil _].
  - unfold calls. simpl. fold (calls h l).
    rewrite elem_of_app, elem_of_call_of, IH, elem_of_cons.
    split.
    + intros [(-> & H)|(Hin & H)]; eauto.
    + intros ([->|Hin] & H); eauto.
Qed.

Lemma calls_length (h : heap) (l : list N) :
  (length (calls h l) ≤ length l)%nat.
Proof.
  induction l as [|b l IH]; [done|].
  unfold calls. simpl. fold (calls h l). rewrite length_app.
  assert (length (call_of h b) ≤ 1)%nat; [|lia].
  unfold call_of. destruct (h !! b); [|simpl; lia].
  destruct (negb _ && negb _); simpl; lia.
Qed.

Lemma calls_NoDup (h : heap) (l : list N) : NoDup l → NoDup (calls h l).
Proof.
  induction 1 as [|b l Hb Hl IH]; [constructor|].
  unfold calls. simpl. fold (calls h l). apply NoDup_app. split_and!.
  - unfold call_of. destruct (h !! b); [|constructor].
    destruct (negb _ && negb _); [apply NoDup_singleton|constructor].
  - intros [|a cb d] Hin.
    + unfold call_of in Hin. destruct (h !! b); [|by apply elem_of_nil in Hin].
      destruct (negb _ && negb _);
        [by apply list_elem_of_singleton in Hin|by apply elem_of_nil in Hin].
    + apply elem_of_call_of in Hin as (-> & _).
      intros Hin'. apply elem_of_calls in Hin' as (Hin' & _). done.
  - done.
Qed.

(** X6. What one notification pass over a well-formed registry does: it
    returns, and a callback call [(node, callback, data)] happens exactly
    when the node is registered and both its callback and its data are not
    [NULL], with the callback and data stored in the node. A node with a
    [NULL] callback or [NULL] data is skipped without ending the pass, no
    node is called twice, and calls follow the chain order. *)
Theorem X6_notify_calls_exactly_the_set_nodes (fuel : nat) (clk : Clock)
    (h : heap) (l : list N) :
  chain h (observers clk) l → (length l < fuel)%nat →
  clock_notify_listeners fuel clk h = Done (EvNotify :: calls h l) ∧
  (∀ a cb d,
     EvCall a cb d ∈ calls h l ↔
     a ∈ l ∧ ∃ nd, h !! a = Some nd ∧ callback nd = cb ∧ data nd = d ∧
                   cb ≠ NULL ∧ d ≠ NULL) ∧
  NoDup (calls h l) ∧
  (length (calls h l) ≤ length l)%nat ∧
  (∀ l1 l2, l = l1 ++ l2 → calls h l = calls h l1 ++ calls h l2).
Proof.
  intros Hc Hf. split_and!.
  - by apply clock_notify_listeners_chain.
  - intros a cb d. apply elem_of_calls.
  - apply calls_NoDup. by apply (chain_NoDup h l (observers clk)).
  - apply calls_length.
  - intros l1 l2 ->. unfold calls. by rewrite map_app, concat_app.
Qed.

Lemma X6_notify_calls_exactly_the_set_nodes_witness :
  clock_notify_listeners 2 (mkClock true 100 0 1) two_nodes
  = Done (EvNotify :: calls two_nodes [1%N]) ∧
  (∀ a cb d,
     EvCall a cb d ∈ calls two_nodes [1%N] ↔
     a ∈ [1%N] ∧ ∃ nd, two_nodes !! a = Some nd ∧ callback nd = cb ∧
                       data nd = d ∧ cb ≠ NULL ∧ d ≠ NULL) ∧
  NoDup (calls two_nodes [1%N]) ∧
  (length (calls two_nodes [1%N]) ≤ length [1%N])%nat ∧
  (∀ l1 l2, [1%N] = l1 ++ l2 →
     calls two_nodes [1%N] = calls two_nodes l1 ++ calls two_nodes l2).
Proof.
  apply (X6_notify_calls_exactly_the_set_nodes 2 (mkClock true 100 0 1)
           two_nodes [1%N]); [reflexivity | simpl; lia].
Defined.

(** * Further properties of [clock_tick] *)

Lemma notifications_app (e1 e2 : list event) :
  notifications (e1 ++ e2) = (notifications e1 + notifications e2)%nat.
Proof. unfold notifications. by rewrite filter_app, length_app. Qed.

Lemma notifications_pass (h : heap) (l : list N) :
  notifications (EvNotify :: calls h l) = 1%nat.
Proof.
  unfold notifications. rewrite filter_cons_True by done. simpl.
  f_equal. apply notifications_calls.
Qed.

Lemma last_clock_cons (clk : Clock) (r : Clock * list event)
    (rs : list (Clock * list event)) :
  last_clock clk (r :: rs) = last_clock r.1 rs.
Proof.
  unfold last_clock. destruct rs as [|r' rs]; [done|].
  rewrite last_cons_cons. destruct (last (r' :: rs)) eqn:E; [done|].
  by apply last_None in E.
Qed.

Lemma run_events_cons (r : Clock * list event)
    (rs : list (Clock * list event)) :
  run_events (r :: rs) = r.2 ++ run_events rs.
Proof. reflexivity. Qed.

(** The two ways a tick of an enabled clock ends. *)
Lemma clock_tick_cases (size_bits : N) (fuel : nat) (clk : Clock) (h : heap)
    (d : Z) (l : list N) :
  0 < period clk → chain h (observers clk) l → (length l < fuel)%nat →
  ∃ clk' evs,
    clock_tick size_bits fuel clk h d = Done (clk', evs) ∧
    period clk' = period clk ∧ observers clk' = observers clk ∧
    ((accumulated size_bits clk d < period clk ∧
      time clk' = accumulated size_bits clk d ∧ evs = []) ∨
     (period clk ≤ accumulated size_bits clk d ∧
      time clk' = 0 ∧ evs = EvNotify :: calls h l)).
Proof.
  intros Hp Hc Hf.
  destruct (decide (accumulated size_bits clk d < period clk)) as [Hlt|Hge].
  - rewrite clock_tick_within by lia. eexists _, _.
    split; [done|]. simpl. split_and!; [done..|]. left. done.
  - rewrite (clock_tick_rollover size_bits fuel clk h d l) by (done || lia).
    eexists _, _. split; [done|]. simpl. split_and!; [done..|].
    right. split_and!; [lia|done..].
Qed.

(** X7. Invariants of a run of ticks on an enabled clock with a
    well-formed registry: every tick returns; after each of them the
    period and the head of the registry are the ones the run started with
    and the phase lies in [0, period); a tick either emits nothing or one
    full notification pass, so a run never sends more notifications than
    it has ticks. *)
Theorem X7_run_invariants (size_bits : N) (fuel : nat) (clk : Clock)
    (h : heap) (deltas : list Z) (l : list N) :
  0 < period clk → chain h (observers clk) l → (length l < fuel)%nat →
  ∃ rs,
    clock_ticks size_bits fuel clk h deltas = Done rs ∧
    length rs = length deltas ∧
    Forall (λ r, period r.1 = period clk ∧
                 observers r.1 = observers clk ∧
                 0 ≤ time r.1 < period clk ∧
                 (r.2 = [] ∨ r.2 = EvNotify :: calls h l)) rs ∧
    (notifications (run_events rs) ≤ length deltas)%nat.
Proof.
  revert clk. induction deltas as [|d ds IH]; intros clk Hp Hc Hf.
  - exists []. split_and!; [done|done|apply Forall_nil_2|].
    unfold notifications, run_events. simpl. lia.
  - destruct (clock_tick_cases size_bits fuel clk h d l Hp Hc Hf)
      as (clk' & evs & Ht & Hp' & Ho' & Hcase).
    destruct (IH clk') as (rs & Hrs & Hlen & Hall & Hn);
      [by rewrite Hp'|by rewrite Ho'|done|].
    rewrite (clock_ticks_cons size_bits fuel clk clk' h d ds evs Ht), Hrs.
    eexists. split; [done|]. simpl.
    pose proof (accumulated_range size_bits clk d) as Hr.
    split_and!.
    + by rewrite Hlen.
    + constructor.
      * simpl. split; [done|]. split; [done|]. split.
        -- destruct Hcase as [(? & -> & _)|(? & -> & _)]; lia.
        -- destruct Hcase as [(_ & _ & ->)|(_ & _ & ->)]; eauto.
      * rewrite <- Hp', <- Ho'. exact Hall.
    + rewrite run_events_cons, notifications_app. simpl.
      destruct Hcase as [(_ & _ & ->)|(_ & _ & ->)].
      * unfold notifications at 1. simpl. lia.
      * rewrite notifications_pass. lia.
Qed.

Lemma X7_run_invariants_witness :
  ∃ rs,
    clock_ticks 64 1 (clock_init 100) ∅ [60; 250; 0; 40] = Done rs ∧
    length rs = length [60; 250; 0; 40] ∧
    Forall (λ r, period r.1 = 100 ∧
                 observers r.1 = NULL ∧
                 0 ≤ time r.1 < 100 ∧
                 (r.2 = [] ∨ r.2 = EvNotify :: calls ∅ [])) rs ∧
    (notifications (run_events rs) ≤ length [60; 250; 0; 40])%nat.
Proof.
  apply (X7_run_invariants 64 1 (clock_init 100) ∅ [60; 250; 0; 40] []);
    [simpl; lia | reflexivity | simpl; lia].
Defined.

(** X8. A clock of period 1 reads LOW after every tick (the HIGH of
    [clock_init] does not survive the first tick, [period / 2] being 0),
    its phase is 0 after every tick, and it sends a notification on every
    tick whose accumulated phase is not 0. *)
Theorem X8_period_one (size_bits : N) (fuel : nat) (clk : Clock) (h : heap)
    (delta : Z) (l : list N) :
  period clk = 1 → chain h (observers clk) l → (length l < fuel)%nat →
  clock_tick size_bits fuel clk h delta =
    Done (mkClock false 1 0 (observers clk),
          if accumulated size_bits clk delta =? 0 then []
          else EvNotify :: calls h l).
Proof.
  intros Hp Hc Hf.
  pose proof (accumulated_range size_bits clk delta) as Hr.
  assert (level size_bits clk delta = false) as Hl.
  { unfold level. rewrite Hp. change (1 / 2) with 0.
    rewrite Z.mod_1_r. reflexivity. }
  destruct (accumulated size_bits clk delta =? 0) eqn:E.
  - rewrite clock_tick_within by lia. rewrite Hl, Hp. do 3 f_equal. lia.
  - rewrite (clock_tick_rollover size_bits fuel clk h delta l)
      by (done || lia).
    by rewrite Hl, Hp.
Qed.

Lemma X8_period_one_witness :
  clock_tick 64 1 (clock_init 1) ∅ 0 =
    Done (mkClock false 1 0 NULL,
          if accumulated 64 (clock_init 1) 0 =? 0 then []
          else EvNotify :: calls ∅ []).
Proof.
  apply (X8_period_one 64 1 (clock_init 1) ∅ 0 []);
    [reflexivity | reflexivity | simpl; lia].
Defined.



(** X10. A driver that ticks with a constant step [d] dividing the period
    ([period = k * d], as the loop of the header's example does with
    [d = 25], [period = 100]) loses no time: from phase [j * d], after [n]
    ticks the clock has sent [(j + n) / k] notifications (one every [k]
    ticks) and its phase is [((j + n) mod k) * d]. *)
Theorem X10_constant_step_run (size_bits : N) (fuel : nat) (clk : Clock)
    (h : heap) (d k j : Z) (n : nat) (l : list N) :
  0 < d → 0 ≤ j < k →
  period clk = k * d → period clk < SIZE_MOD size_bits →
  time clk = j * d →
  chain h (observers clk) l → (length l < fuel)%nat →
  ∃ rs,
    clock_ticks size_bits fuel clk h (replicate n d) = Done rs ∧
    Z.of_nat (notifications (run_events rs)) = (j + Z.of_nat n) / k ∧
    time (last_clock clk rs) = ((j + Z.of_nat n) mod k) * d.
Proof.
  intros Hd. revert clk j.
  induction n as [|n IH]; intros clk j Hj Hp Hm Ht Hc Hf.
  - exists []. split; [done|].
    unfold notifications, run_events, last_clock. simpl.
    rewrite Z.add_0_r, Z.div_small, Z.mod_small by lia. by split.
  - assert (accumulated size_bits clk d = (j + 1) * d) as Ha
      by (rewrite accumulated_small; nia).
    destruct (clock_tick_cases size_bits fuel clk h d l ltac:(nia) Hc Hf)
      as (clk' & evs & Hstep & Hp' & Ho' & Hcase).
    rewrite Ha in Hcase. simpl replicate.
    rewrite (clock_ticks_cons size_bits fuel clk clk' h d _ evs Hstep).
    destruct Hcase as [(Hlt & Ht' & ->)|(Hge & Ht' & ->)].
    + assert (j + 1 < k) as Hj' by nia.
      destruct (IH clk' (j + 1)) as (rs & -> & Hn & Hfin);
        [lia|by rewrite Hp'|by rewrite Hp'|done|by rewrite Ho'|done|].
      eexists. split; [done|].
      rewrite last_clock_cons, run_events_cons, notifications_app. simpl.
      unfold notifications at 1. simpl.
      replace (j + Z.of_nat (S n)) with (j + 1 + Z.of_nat n) by lia.
      by split.
    + assert (j + 1 = k) as Hj' by nia.
      destruct (IH clk' 0) as (rs & -> & Hn & Hfin);
        [lia|by rewrite Hp'|by rewrite Hp'|by rewrite Ht'; lia
        |by rewrite Ho'|done|].
      eexists. split; [done|].
      rewrite last_clock_cons, run_events_cons, notifications_app.
      cbn [fst snd]. rewrite notifications_pass.
      replace (j + Z.of_nat (S n)) with (1 * k + (0 + Z.of_nat n)) by lia.
      rewrite Z.div_add_l by lia.
      rewrite (Z.add_comm (1 * k) (0 + Z.of_nat n)), Z_mod_plus_full.
      split; [lia|done].
Qed.

Lemma X10_constant_step_run_witness :
  ∃ rs,
    clock_ticks 64 1 (clock_init 100) ∅ (replicate 16 25) = Done rs ∧
    Z.of_nat (notifications (run_events rs)) = (0 + Z.of_nat 16) / 4 ∧
    time (last_clock (clock_init 100) rs) = ((0 + Z.of_nat 16) mod 4) * 25.
Proof.
  apply (X10_constant_step_run 64 1 (clock_init 100) ∅ 25 4 0 16 []);
    [lia | lia | reflexivity | vm_compute; reflexivity | reflexivity
    | reflexivity | simpl; lia].
Defined.

(** * Properties of [xrandom] *)

Lemma UINT64_MOD_pos : 0 < UINT64_MOD.
Proof. reflexivity. Qed.

Lemma XRANDOM_MUL_INV_spec : (XRANDOM_MUL * XRANDOM_MUL_INV) mod UINT64_MOD = 1.
Proof. reflexivity. Qed.

Lemma xrandom_state_eq (int_bits : N) (st : Z) :
  (xrandom int_bits st).1 = (st * XRANDOM_MUL + 1) mod UINT64_MOD.
Proof. reflexivity. Qed.

Lemma xrandom_value_eq (int_bits : N) (st : Z) :
  (xrandom int_bits st).2 =
    to_int int_bits (Z.shiftr ((xrandom int_bits st).1) 33).
Proof. reflexivity. Qed.

Lemma to_int_small (int_bits : N) (z : Z) :
  (32 ≤ int_bits)%N → 0 ≤ z < 2 ^ 31 → to_int int_bits z = z.
Proof.
  intros Hb Hz. unfold to_int.
  assert (2 ^ 31 ≤ 2 ^ (Z.of_N int_bits - 1)) as Hh
    by (apply Z.pow_le_mono_r; lia).
  assert (2 ^ Z.of_N int_bits = 2 * 2 ^ (Z.of_N int_bits - 1)) as ->.
  { rewrite <- Z.pow_succ_r by lia. f_equal. lia. }
  rewrite Z.mod_small; lia.
Qed.

(** X11. [xrandom] never returns a negative value or one above
    [XRAND_MAX]: the new state is a [uint64_t], the value is its upper 31
    bits, and the conversion to [int] (32 bits or more) changes nothing. *)
Theorem X11_xrandom_range (int_bits : N) (st : Z) :
  (32 ≤ int_bits)%N →
  0 ≤ (xrandom int_bits st).1 < UINT64_MOD ∧
  (xrandom int_bits st).2 = (xrandom int_bits st).1 / 2 ^ 33 ∧
  0 ≤ (xrandom int_bits st).2 ≤ XRAND_MAX.
Proof.
  intros Hb. rewrite xrandom_value_eq.
  pose proof (Z.mod_pos_bound (st * XRANDOM_MUL + 1) UINT64_MOD UINT64_MOD_pos)
    as Hr.
  rewrite <- xrandom_state_eq with (int_bits := int_bits) in Hr.
  set (s := (xrandom int_bits st).1) in *.
  rewrite Z.shiftr_div_pow2 by lia.
  assert (0 ≤ s / 2 ^ 33 < 2 ^ 31) as Hq.
  { split; [apply Z.div_pos; lia|].
    apply Z.div_lt_upper_bound; [lia|].
    change (2 ^ 33 * 2 ^ 31) with UINT64_MOD. lia. }
  rewrite to_int_small by done.
  split; [done|]. split; [done|].
  change XRAND_MAX with (2 ^ 31 - 1). lia.
Qed.

Lemma X11_xrandom_range_witness :
  0 ≤ (xrandom 32 xrandom_state).1 < UINT64_MOD ∧
  (xrandom 32 xrandom_state).2 = (xrandom 32 xrandom_state).1 / 2 ^ 33 ∧
  0 ≤ (xrandom 32 xrandom_state).2 ≤ XRAND_MAX.
Proof. apply (X11_xrandom_range 32 xrandom_state). vm_compute. discriminate. Defined.

(** X12. Every call of [xrandom] flips the lowest bit of the state, so the
    state never stays as it is: the generator has no fixed point, and its
    lowest state bit alternates (the value returned drops the low 33
    bits). *)
Theorem X12_xrandom_flips_low_bit (int_bits : N) (st : Z) :
  Z.odd (xrandom int_bits st).1 = negb (Z.odd st) ∧
  (xrandom int_bits st).1 ≠ st.
Proof.
  assert (Z.odd (xrandom int_bits st).1 = negb (Z.odd st)) as H.
  { rewrite xrandom_state_eq, <- !Z.bit0_odd.
    change UINT64_MOD with (2 ^ 64).
    rewrite Z.mod_pow2_bits_low by lia.
    rewrite !Z.bit0_odd, Z.odd_add, Z.odd_mul.
    change (Z.odd XRANDOM_MUL) with true. change (Z.odd 1) with true.
    by destruct (Z.odd st). }
  split; [done|]. intros Heq. rewrite Heq in H. by destruct (Z.odd st).
Qed.

Lemma xrandom_prev_step (int_bits : N) (st : Z) :
  0 ≤ st < UINT64_MOD → xrandom_prev (xrandom int_bits st).1 = st.
Proof.
  intros Hs. rewrite xrandom_state_eq. unfold xrandom_prev.
  rewrite <- Z.mul_mod_idemp_l by done.
  rewrite Zminus_mod_idemp_l.
  rewrite Z.mul_mod_idemp_l by done.
  replace ((st * XRANDOM_MUL + 1 - 1) * XRANDOM_MUL_INV)
    with (st * (XRANDOM_MUL * XRANDOM_MUL_INV)) by ring.
  rewrite <- Z.mul_mod_idemp_r by done.
  rewrite XRANDOM_MUL_INV_spec, Z.mul_1_r.
  by apply Z.mod_small.
Qed.

Lemma xrandom_step_prev (int_bits : N) (st : Z) :
  0 ≤ st < UINT64_MOD → (xrandom int_bits (xrandom_prev st)).1 = st.
Proof.
  intros Hs. rewrite xrandom_state_eq. unfold xrandom_prev.
  rewrite <- Z.add_mod_idemp_l by done.
  rewrite Z.mul_mod_idemp_l by done.
  rewrite Z.add_mod_idemp_l by done.
  replace ((st - 1) * XRANDOM_MUL_INV * XRANDOM_MUL + 1)
    with ((st - 1) * (XRANDOM_MUL * XRANDOM_MUL_INV) + 1) by ring.
  rewrite <- Z.add_mod_idemp_l by done.
  rewrite <- Z.mul_mod_idemp_r by done.
  rewrite XRANDOM_MUL_INV_spec, Z.mul_1_r.
  rewrite Z.add_mod_idemp_l by done.
  replace (st - 1 + 1) with st by ring.
  by apply Z.mod_small.
Qed.

(** X13. The state update of [xrandom] is a permutation of the [uint64_t]
    values: two different states are followed by two different states,
    and every state is the successor of exactly the state [xrandom_prev]
    gives. So no two seeds ever fall into the same sequence of states. *)
Theorem X13_xrandom_step_is_permutation (int_bits : N) (s1 s2 : Z) :
  0 ≤ s1 < UINT64_MOD → 0 ≤ s2 < UINT64_MOD → s1 ≠ s2 →
  (xrandom int_bits s1).1 ≠ (xrandom int_bits s2).1 ∧
  xrandom_prev (xrandom int_bits s1).1 = s1 ∧
  0 ≤ xrandom_prev s1 < UINT64_MOD ∧
  (xrandom int_bits (xrandom_prev s1)).1 = s1.
Proof.
  intros H1 H2 Hne. split_and!.
  - intros Heq. apply Hne.
    rewrite <- (xrandom_prev_step int_bits s1 H1).
    rewrite <- (xrandom_prev_step int_bits s2 H2). by rewrite Heq.
  - by apply xrandom_prev_step.
  - apply Z.mod_pos_bound, UINT64_MOD_pos.
  - apply Z.mod_pos_bound, UINT64_MOD_pos.
  - by apply xrandom_step_prev.
Qed.

Lemma X13_xrandom_step_is_permutation_witness :
  (xrandom 32 1234).1 ≠ (xrandom 32 (2 ^ 63 + 1234)).1 ∧
  xrandom_prev (xrandom 32 1234).1 = 1234 ∧
  0 ≤ xrandom_prev 1234 < UINT64_MOD ∧
  (xrandom 32 (xrandom_prev 1234)).1 = 1234.
Proof.
  apply (X13_xrandom_step_is_permutation 32 1234 (2 ^ 63 + 1234));
    vm_compute; intuition congruence.
Defined.
